(** * The playground's file explorer and workspace handle

    A shallow embedding of

    - [src/components/editor/components/common/file-explorer.tsx]: the
      reducer behind the file tree's creation input, and
    - the workspace handle ([workspaceHandleRx]): the terminal session of a
      workspace shell, the pass that rewrites the workspace files when the
      [solved] flag changes, and the resize counter.

    The reducer is a pure function and is embedded as one.  The workspace
    handle is effectful: it calls into a terminal emulator, a sandboxed shell
    and a container file system.  Those calls are recorded, in order, in a
    call trace kept in an explicit [World]; callbacks registered by the code
    are stored in the world and run when the environment delivers data. *)

From stdpp Require Import base list strings gmap.

(** ** The file explorer *)

Module FileExplorer.

(** [type InputType = "file" | "directory"] *)
Inductive InputType := file | directory.

#[global] Instance InputType_eq_dec : EqDecision InputType.
Proof. solve_decision. Defined.

(** The tagged enum [Action]. *)
Inductive Action :=
  | ShowInput (type : InputType) (path : string)
  | HideInput.

(** The tagged enum [CreationMode]. *)
Inductive CreationMode :=
  | Idle
  | CreatingFile (path : string)
  | CreatingDirectory (path : string).

(** [interface State]: a single field. *)
Record State := { creationMode : CreationMode }.

(** [{ ...state, creationMode }]: every field of [state] is copied and
    [creationMode] is then overwritten; [State] has no other field. *)
Definition with_creationMode (state : State) (mode : CreationMode) : State :=
  {| creationMode := mode |}.

Definition reducer (state : State) (action : Action) : State :=
  match action with
  | ShowInput type path =>
      let creationMode :=
        if decide (type = file)
        then CreatingFile path
        else CreatingDirectory path in
      with_creationMode state creationMode
  | HideInput =>
      with_creationMode state Idle
  end.

Definition initialState : State := {| creationMode := Idle |}.

(** [useReducer(reducer, initialState)]: the state held by the component
    after the given actions were dispatched, oldest first. *)
Definition useReducer (actions : list Action) : State :=
  foldl reducer initialState actions.

End FileExplorer.

(** ** The reactive primitives used by the workspace handle

    [Rx] values are owned by the reactive-state library, which is not part
    of this repository.  What the workspace handle relies on is modelled
    here, on the behaviour of the library: which values a stream over an
    [Rx] hands to the loop that runs it, and when a debounced [Rx]
    notifies.  Time is logical, in milliseconds. *)

Module Rx.

(** [get.stream(rx, { withoutInitialValue })]: the values the stream hands
    to its loop.  [initial] is the value the [Rx] holds at subscription; it
    is handed over at once unless [withoutInitialValue] is set.  [updates]
    are the values handed over afterwards, out of the queue of the stream
    (see [served]): they are values the [Rx] notifies, and an [Rx] that
    computes its value for the first time after the subscription notifies
    that value like any other. *)
Definition stream {A} (withoutInitialValue : bool)
    (initial : A) (updates : list A) : list A :=
  if withoutInitialValue then updates else initial :: updates.

(** *** The queue behind a stream

    A stream over an [Rx] is fed through a queue: the subscription offers
    every value the [Rx] notifies, and the loop takes one value at a time. *)

Inductive StreamEvent (A : Type) :=
  | Notified (value : A)   (* the [Rx] notifies the subscription of a value *)
  | Ready.                 (* the loop comes back for the next value *)

Arguments Notified {A} value.
Arguments Ready {A}.

(** The default [bufferSize] of [get.stream]. *)
Definition bufferSize : nat := 16.

Record StreamQueue (A : Type) := {
  buffered : list A;       (* offered and not taken yet, oldest first *)
  waiting : bool           (* is the loop parked on an empty queue? *)
}.

Arguments buffered {A} _.
Arguments waiting {A} _.

(** One event on the queue, and the value it hands to the loop, if any.
    A value offered while the loop is parked goes straight to the loop; a
    value offered to a full queue is dropped. *)
Definition stream_step {A} (e : StreamEvent A) (q : StreamQueue A)
    : option A * StreamQueue A :=
  match e with
  | Notified value =>
      if waiting q then
        (Some value, {| buffered := buffered q; waiting := false |})
      else if decide (length (buffered q) < bufferSize) then
        (None, {| buffered := buffered q ++ [value]; waiting := false |})
      else
        (None, q)
  | Ready =>
      match buffered q with
      | value :: rest => (Some value, {| buffered := rest; waiting := false |})
      | [] => (None, {| buffered := []; waiting := true |})
      end
  end.

(** The values handed to the loop over a run of events, in order. *)
Fixpoint serve {A} (events : list (StreamEvent A)) (q : StreamQueue A)
    : list A :=
  match events with
  | [] => []
  | e :: events' =>
      match stream_step e q with
      | (Some value, q') => value :: serve events' q'
      | (None, q') => serve events' q'
      end
  end.

(** A stream starts with an empty queue and its loop parked on it. *)
Definition served {A} (events : list (StreamEvent A)) : list A :=
  serve events {| buffered := []; waiting := true |}.

(** The values the [Rx] notified over a run of events, in order. *)
Definition notified {A} (events : list (StreamEvent A)) : list A :=
  omap (λ e, match e with Notified value => Some value | Ready => None end)
    events.

(** *** Debouncing *)

(** A timer of [millis] is pending; it is to fire at [deadline] and to
    publish [latest].  A notification that comes before the deadline
    replaces the value to publish and leaves the timer alone; one that
    comes later finds the timer fired and starts the next one. *)
Fixpoint debounce_pending {A} (millis deadline : nat) (latest : A)
    (upstream : list (nat * A)) : list (nat * A) :=
  match upstream with
  | [] => [(deadline, latest)]
  | (t, value) :: later =>
      if decide (t < deadline)
      then debounce_pending millis deadline value later
      else (deadline, latest) :: debounce_pending millis (t + millis) value later
  end.

(** [Rx.debounce(millis)]: an upstream notification that finds no timer
    pending starts one of [millis]; when the timer fires, the latest
    upstream value is published.  [upstream] lists the notifications as
    (time, value), in order of time. *)
Definition debounce {A} (millis : nat) (upstream : list (nat * A))
    : list (nat * A) :=
  match upstream with
  | [] => []
  | (t, value) :: later => debounce_pending millis (t + millis) value later
  end.

End Rx.

(** ** The workspace handle *)

Module Workspaces.

(** *** Domain ([./domain/workspace]): the fields the handle reads *)

Record File := {
  initialContent : string;
  solution : option string      (* [solution?: string] *)
}.

Record Workspace := {
  name : string;
  filePaths : list (File * string)
}.

Record WorkspaceShell := {
  command : option string       (* [command?: string] *)
}.

(** *** Calls into the terminal, the shell and the container *)

Inductive Call :=
  | TerminalWrite (data : string)          (* [terminal.write(data)] *)
  | InputWrite (data : string)             (* [input.write(data)] *)
  | OutputPipeTo                           (* [shell.output.pipeTo(sink)] *)
  | TerminalOnData                         (* [terminal.onData(listener)] *)
  | PrepareAwait                           (* [prepare.await] has returned *)
  | Sleep (millis : nat)                   (* [Effect.sleep(millis)] has elapsed *)
  | HandleWrite (path content : string)    (* [handle.write(path, content)] *)
  | Resize.                                (* [resize] *)

#[global] Instance Call_eq_dec : EqDecision Call.
Proof. solve_decision. Defined.

(** A callback handed to the terminal or to a stream: the calls it makes
    when it is given a chunk of data. *)
Definition Callback : Type := string → list Call.

Record World := {
  calls : list Call;                  (* every call made so far, oldest first *)
  files : gmap string string;         (* the container's files, by path *)
  prepare_done : bool;                (* has the [prepare] fiber exited? *)
  output_queue : list string;         (* chunks of [shell.output] not read yet *)
  output_sink : option Callback;      (* the sink [shell.output] is piped to *)
  onData_listeners : list Callback    (* the listeners of [terminal.onData] *)
}.

(** A call is appended to the trace; [handle.write] also stores the
    content under the path. *)
Definition perform (c : Call) (w : World) : World :=
  {| calls := calls w ++ [c];
     files := match c with
              | HandleWrite path content => <[path := content]> (files w)
              | _ => files w
              end;
     prepare_done := prepare_done w;
     output_queue := output_queue w;
     output_sink := output_sink w;
     onData_listeners := onData_listeners w |}.

Definition perform_all (cs : list Call) (w : World) : World :=
  foldl (λ w c, perform c w) w cs.

(** *** What the environment does while a fiber is suspended *)

Inductive Stimulus :=
  | ShellEmit (data : string)      (* the shell enqueues a chunk on its output *)
  | PipeRead                       (* the pipe takes the next chunk to its sink *)
  | TerminalData (data : string)   (* the terminal fires [onData] *)
  | PrepareExit.                   (* the [prepare] fiber exits *)

Definition react (s : Stimulus) (w : World) : World :=
  match s with
  | ShellEmit data =>
      {| calls := calls w; files := files w; prepare_done := prepare_done w;
         output_queue := output_queue w ++ [data];
         output_sink := output_sink w;
         onData_listeners := onData_listeners w |}
  | PipeRead =>
      match output_sink w, output_queue w with
      | Some write, chunk :: rest =>
          perform_all (write chunk)
            {| calls := calls w; files := files w;
               prepare_done := prepare_done w;
               output_queue := rest;
               output_sink := output_sink w;
               onData_listeners := onData_listeners w |}
      | _, _ => w
      end
  | TerminalData data =>
      perform_all (listener ← onData_listeners w; listener data) w
  | PrepareExit =>
      {| calls := calls w; files := files w; prepare_done := true;
         output_queue := output_queue w;
         output_sink := output_sink w;
         onData_listeners := onData_listeners w |}
  end.

Definition deliver (stimuli : list Stimulus) (w : World) : World :=
  foldl (λ w s, react s w) w stimuli.

Definition is_PrepareExit (s : Stimulus) : bool :=
  match s with PrepareExit => true | _ => false end.

(** *** Effects

    An effect transforms the world.  It returns [None] when its fiber is
    still suspended at the end of what the environment was seen to do. *)

Definition Eff (A : Type) : Type := World → option A * World.

#[global] Instance Eff_ret : MRet Eff := λ A a w, (Some a, w).

#[global] Instance Eff_bind : MBind Eff := λ A B f m w,
  match m w with
  | (Some a, w') => f a w'
  | (None, w') => (None, w')
  end.

Definition call (c : Call) : Eff unit := λ w, (Some tt, perform c w).

Definition terminal_write (data : string) : Eff unit := call (TerminalWrite data).
Definition input_write (data : string) : Eff unit := call (InputWrite data).
Definition handle_write (path content : string) : Eff unit :=
  call (HandleWrite path content).
Definition resize : Eff unit := call Resize.

(** [shell.output.pipeTo(sink)]: a stream that is already piped is locked
    and keeps its sink. *)
Definition output_pipeTo (sink : Callback) : Eff unit := λ w,
  (Some tt,
   perform OutputPipeTo
     {| calls := calls w; files := files w; prepare_done := prepare_done w;
        output_queue := output_queue w;
        output_sink := match output_sink w with
                       | Some old => Some old
                       | None => Some sink
                       end;
        onData_listeners := onData_listeners w |}).

(** [terminal.onData(listener)] *)
Definition terminal_onData (listener : Callback) : Eff unit := λ w,
  (Some tt,
   perform TerminalOnData
     {| calls := calls w; files := files w; prepare_done := prepare_done w;
        output_queue := output_queue w;
        output_sink := output_sink w;
        onData_listeners := onData_listeners w ++ [listener] |}).

(** [yield* prepare.await]: the fiber resumes once [prepare] has exited;
    [during] is what the environment does meanwhile. *)
Fixpoint prepare_await (during : list Stimulus) (w : World)
    : option unit * World :=
  if prepare_done w then (Some tt, perform PrepareAwait w)
  else match during with
       | [] => (None, w)
       | s :: during' => prepare_await during' (react s w)
       end.

(** [yield* Effect.sleep(millis)] *)
Definition Effect_sleep (millis : nat) (during : list Stimulus) : Eff unit :=
  λ w, (Some tt, perform (Sleep millis) (deliver during w)).

(** [effect.pipe(Effect.forkScoped)], followed on the child fiber:
    [before] is what the environment does until the child starts. *)
Definition Effect_forkScoped {A} (before : list Stimulus) (child : Eff A)
    : Eff A :=
  λ w, child (deliver before w).

(** [Effect.forEach(items, f)], results discarded. *)
Fixpoint Effect_forEach {A} (items : list A) (f : A → Eff unit) : Eff unit :=
  match items with
  | [] => mret tt
  | item :: items' => f item ;; Effect_forEach items' f
  end.

(** [stream.pipe(Stream.runForEach(f))] on the values the stream carries. *)
Definition Stream_runForEach {A} (emissions : list A) (f : A → Eff unit)
    : Eff unit :=
  Effect_forEach emissions f.

(** *** Strings *)

Definition newline : string := String (Ascii.ascii_of_nat 10) EmptyString.
Definition dquote : string := String (Ascii.ascii_of_nat 34) EmptyString.

(** JavaScript truthiness of an optional string. *)
Definition truthy (s : option string) : bool :=
  match s with
  | Some (String _ _) => true
  | Some EmptyString => false
  | None => false
  end.

(** [`${s}`] for an optional string. *)
Definition template (s : option string) : string :=
  match s with
  | Some s => s
  | None => "undefined"
  end.

(** [a ?? b] *)
Definition nullish {A} (a : option A) (b : A) : A :=
  match a with
  | Some a => a
  | None => b
  end.

(** *** [workspaceHandleRx] *)

(** [let size = 0] and the value held by the writable [Rx] built on it;
    the getter [() => size] gives the value held at first. *)
Record SizeCell := {
  size : nat;
  self : nat
}.

Definition terminalSize_initial : SizeCell := {| size := 0; self := 0 |}.

(** The setter of [terminalSize]: [ctx.setSelf(size++)]. *)
Definition terminalSize_write (cell : SizeCell) : SizeCell :=
  {| size := size cell + 1; self := size cell |}.

(** The notifications of the writable for writes made at the given times:
    a write hands the [Rx] the counter as it was, and the [Rx] notifies the
    value unless it is the value it holds already. *)
Fixpoint writable_notifications (cell : SizeCell) (writes : list nat)
    : list (nat * nat) :=
  match writes with
  | [] => []
  | t :: later =>
      let cell' := terminalSize_write cell in
      if decide (self cell' = self cell)
      then writable_notifications cell' later
      else (t, self cell') :: writable_notifications cell' later
  end.

(** [terminalSize] is the writable piped through [Rx.debounce(250)]:
    what its subscribers see of the notifications of the writable. *)
Definition terminalSize (upstream : list (nat * nat)) : list (nat * nat) :=
  Rx.debounce 250 upstream.

(** The environment's part in a terminal session: what happens before the
    forked fiber starts, while it awaits [prepare], and while it sleeps. *)
Record Schedule := {
  at_fork : list Stimulus;
  during_await : list Stimulus;
  during_sleep : list Stimulus
}.

(** [mount] *)
Definition mount : Eff unit :=
  output_pipeTo (λ data, [TerminalWrite data]) ;;
  terminal_onData (λ data, [InputWrite data]).

(** The body of [terminal] from ["Loading workspace..."] to the end of the
    forked fiber. *)
Definition terminal_session (workspace : Workspace) (env : WorkspaceShell)
    (schedule : Schedule) : Eff unit :=
  terminal_write ("Loading workspace..." +:+ newline) ;;
  Effect_forkScoped (at_fork schedule)
    (input_write
       ("cd " +:+ dquote +:+ name workspace +:+ dquote +:+ " && clear"
        +:+ newline) ;;
     prepare_await (during_await schedule) ;;
     if truthy (command env) then
       Effect_sleep 3000 (during_sleep schedule) ;;
       mount ;;
       input_write (template (command env) +:+ newline)
     else
       mount).

(** [get.stream(terminalSize).pipe(Stream.runForEach(() => resize))]:
    [held] is the value of [terminalSize] at subscription. *)
Definition resize_loop (held : nat) (upstream : list (nat * nat)) : Eff unit :=
  Stream_runForEach (Rx.stream false held (snd <$> terminalSize upstream))
    (λ _, resize).

(** [const solved = Rx.make(false)] *)
Definition solved_initial : bool := false.

(** [get.stream(solved, { withoutInitialValue: true })] run for each
    value: [updates] are the values the stream hands to the loop. *)
Definition solved_loop (workspace : Workspace) (updates : list bool)
    : Eff unit :=
  Stream_runForEach (Rx.stream true solved_initial updates)
    (λ solve,
       Effect_forEach (filePaths workspace)
         (λ '(file, path),
            handle_write path
              (if solve
               then nullish (solution file) (initialContent file)
               else initialContent file))).

(** *** Observations on a world *)

Definition terminal_written (w : World) : list string :=
  omap (λ c, match c with TerminalWrite data => Some data | _ => None end)
    (calls w).

Definition input_written (w : World) : list string :=
  omap (λ c, match c with InputWrite data => Some data | _ => None end)
    (calls w).

Definition emitted (stimuli : list Stimulus) : list string :=
  omap (λ s, match s with ShellEmit data => Some data | _ => None end) stimuli.

Definition typed (stimuli : list Stimulus) : list string :=
  omap (λ s, match s with TerminalData data => Some data | _ => None end)
    stimuli.

(** The calls made between an earlier world and a later one. *)
Definition calls_since (before after : World) : list Call :=
  drop (length (calls before)) (calls after).

(** A terminal and a shell as [spawn] and [handle.shell] return them:
    nothing is piped and nobody listens yet. *)
Definition fresh (w : World) : Prop :=
  output_sink w = None ∧ onData_listeners w = [].

Definition empty_world : World :=
  {| calls := []; files := ∅; prepare_done := false; output_queue := [];
     output_sink := None; onData_listeners := [] |}.

(** The two callbacks that [mount] installs are in place. *)
Definition wired (w : World) : Prop :=
  output_sink w = Some (λ data, [TerminalWrite data]) ∧
  onData_listeners w = [λ data, [InputWrite data]].

(** The content a file is to hold for a value of the solved flag, in the
    words of the specification: the solution when the workspace is solved
    and the file has one, the initial content otherwise. *)
Definition expected_content (solved : bool) (file : File) : string :=
  match solved, solution file with
  | true, Some answer => answer
  | true, None => initialContent file
  | false, _ => initialContent file
  end.

(** The writes prescribed for one value of the flag: one per entry of
    [filePaths], in order. *)
Definition round_writes (workspace : Workspace) (solve : bool) : list Call :=
  (λ '(file, path), HandleWrite path (expected_content solve file))
    <$> filePaths workspace.

(** *** A small workspace, used to run the definitions *)

Definition demo_workspace : Workspace :=
  {| name := "demo";
     filePaths :=
       [({| initialContent := "export const a = 0";
            solution := Some "export const a = 1" |}, "src/a.ts");
        ({| initialContent := "export const b = 0";
            solution := None |}, "src/b.ts")] |}.

Definition demo_shell : WorkspaceShell := {| command := Some "npm start" |}.

Definition demo_schedule : Schedule :=
  {| at_fork := [ShellEmit "$ "];
     during_await := [TerminalData "x"; ShellEmit "ready"; PrepareExit];
     during_sleep := [PipeRead; ShellEmit "> "] |}.

(** *** The terminal theme *)

(** The two themes imported from [./services/Terminal], by name. *)
Inductive TerminalTheme := NightOwlishLightTheme | MonokaiSodaTheme.

(** [terminalTheme = Rx.map(themeRx, ...)], on one value of [themeRx]. *)
Definition terminalTheme (theme : string) : TerminalTheme :=
  if decide (theme = "light") then NightOwlishLightTheme else MonokaiSodaTheme.

(** [terminal.options.theme] under the subscription
    [get.subscribe(terminalTheme, (theme) => { terminal.options.theme = theme })]:
    [spawned] is the theme the terminal was spawned with, [later] the values
    [themeRx] takes afterwards. *)
Definition terminal_options_theme (spawned : TerminalTheme)
    (later : list string) : TerminalTheme :=
  foldl (λ _ theme, theme) spawned (terminalTheme <$> later).

(** *** Describing what the environment did *)

(** The times of consecutive notifications are related by [R]. *)
Fixpoint adjacent {A} (R : nat → nat → Prop) (upstream : list (nat * A))
    : Prop :=
  match upstream with
  | [] => True
  | (t, _) :: later =>
      match later with
      | [] => True
      | (t', _) :: _ => R t t' ∧ adjacent R later
      end
  end.

(** What the environment gets to do before a fiber awaiting [prepare]
    resumes: everything up to the exit of [prepare], nothing if it has
    exited already. *)
Fixpoint awaited (exited : bool) (during : list Stimulus) : list Stimulus :=
  if exited then []
  else match during with
       | [] => []
       | s :: during' => s :: awaited (is_PrepareExit s) during'
       end.

(** Does the session get past [prepare.await]? *)
Definition resumes (exited : bool) (schedule : Schedule) : bool :=
  exited || existsb is_PrepareExit (at_fork schedule ++ during_await schedule).

(** What the environment has done by the end of a terminal session. *)
Definition seen (exited : bool) (env : WorkspaceShell) (schedule : Schedule)
    : list Stimulus :=
  at_fork schedule ++
  awaited (exited || existsb is_PrepareExit (at_fork schedule))
    (during_await schedule) ++
  if resumes exited schedule && truthy (command env)
  then during_sleep schedule
  else [].

(** The solved flag toggled [n] times: set, cleared, set, and so on. *)
Definition demo_toggles (n : nat) : list (Rx.StreamEvent bool) :=
  (λ i, Rx.Notified (Nat.odd i)) <$> seq 1 n.

End Workspaces.

(** * The definitions at work *)

Section Runs.
Import FileExplorer Workspaces.

Example useReducer_run :
  creationMode
    (useReducer [ShowInput file "src/a.ts"; HideInput;
                 ShowInput directory "src/lib"])
  = CreatingDirectory "src/lib".
Proof. reflexivity. Qed.

Example debounce_run :
  Rx.debounce 250 [(0, 1); (100, 2); (400, 3); (650, 4); (1000, 5)]
  = [(250, 2); (650, 3); (900, 4); (1250, 5)].
Proof. reflexivity. Qed.

(** A timer that is pending is not restarted: a burst longer than the
    delay is published twice. *)
Example debounce_burst_run :
  Rx.debounce 250 [(0, 1); (100, 2); (300, 3)] = [(250, 2); (550, 3)].
Proof. reflexivity. Qed.

(** The first write hands over the value the [Rx] holds and is not
    notified. *)
Example writable_notifications_run :
  writable_notifications terminalSize_initial [0; 50; 100]
  = [(50, 1); (100, 2)].
Proof. reflexivity. Qed.

Example terminalSize_write_run :
  terminalSize_write (terminalSize_write terminalSize_initial)
  = {| size := 2; self := 1 |}.
Proof. reflexivity. Qed.

Example solved_loop_run_demo :
  calls (solved_loop demo_workspace [true; false] empty_world).2
  = [HandleWrite "src/a.ts" "export const a = 1";
     HandleWrite "src/b.ts" "export const b = 0";
     HandleWrite "src/a.ts" "export const a = 0";
     HandleWrite "src/b.ts" "export const b = 0"].
Proof. reflexivity. Qed.

(** An empty command is falsy: the terminal is mounted at once and
    nothing more is written. *)
Example terminal_session_empty_command :
  calls (terminal_session demo_workspace {| command := Some EmptyString |}
           demo_schedule empty_world).2
  = [TerminalWrite ("Loading workspace..." +:+ newline);
     InputWrite ("cd " +:+ dquote +:+ "demo" +:+ dquote +:+ " && clear"
                 +:+ newline);
     PrepareAwait; OutputPipeTo; TerminalOnData].
Proof. reflexivity. Qed.

(** While [prepare] runs the session stays suspended, and the output of
    the shell stays in the queue. *)
Example terminal_session_suspended :
  let result :=
    terminal_session demo_workspace demo_shell
      {| at_fork := []; during_await := [ShellEmit "$ "; PipeRead];
         during_sleep := [] |} empty_world in
  result.1 = None ∧
  calls result.2
  = [TerminalWrite ("Loading workspace..." +:+ newline);
     InputWrite ("cd " +:+ dquote +:+ "demo" +:+ dquote +:+ " && clear"
                 +:+ newline)] ∧
  output_queue result.2 = ["$ "].
Proof. by repeat split. Qed.

Example mount_run :
  let w :=
    deliver [ShellEmit "a"; TerminalData "ls"; PipeRead; PipeRead;
             ShellEmit "b"; PipeRead] (mount empty_world).2 in
  calls w
  = [OutputPipeTo; TerminalOnData; InputWrite "ls"; TerminalWrite "a";
     TerminalWrite "b"].
Proof. reflexivity. Qed.

End Runs.

(** * Properties of the file explorer *)

Section FileExplorerFacts.
Import FileExplorer.

Lemma useReducer_snoc (actions : list Action) (a : Action) :
  useReducer (actions ++ [a]) = reducer (useReducer actions) a.
Proof. unfold useReducer. by rewrite foldl_app. Qed.

Lemma reducer_mode (s : State) (a : Action) :
  creationMode (reducer s a) =
    match a with
    | ShowInput file path => CreatingFile path
    | ShowInput directory path => CreatingDirectory path
    | HideInput => Idle
    end.
Proof. by destruct a as [[] path|]. Qed.

(** Only the action dispatched last matters. *)
Lemma useReducer_last (actions : list Action) :
  creationMode (useReducer actions) =
    match last actions with
    | Some a => creationMode (reducer initialState a)
    | None => Idle
    end.
Proof.
  induction actions as [|a actions _] using rev_ind; [done|].
  by rewrite useReducer_snoc, last_snoc, !reducer_mode.
Qed.

(** C1. In every state, the reducer takes [ShowInput] of type ["file"]
    and path [p] to creation mode [CreatingFile p], [ShowInput] of type
    ["directory"] and path [p] to [CreatingDirectory p], and [HideInput]
    to [Idle]. *)
Theorem reducer_transitions (s : State) (p : string) :
  creationMode (reducer s (ShowInput file p)) = CreatingFile p ∧
  creationMode (reducer s (ShowInput directory p)) = CreatingDirectory p ∧
  creationMode (reducer s HideInput) = Idle.
Proof. by rewrite !reducer_mode. Qed.

(** C3. After any sequence of actions dispatched from the initial state
    the creation mode is one of the three modes: [Idle] when nothing was
    dispatched or [HideInput] came last, and otherwise [CreatingFile] or
    [CreatingDirectory] with the path of the [ShowInput] that came last,
    according to its type. *)
Theorem creationMode_tri_state (actions : list Action) :
  match creationMode (useReducer actions) with
  | Idle => last actions = None ∨ last actions = Some HideInput
  | CreatingFile p => last actions = Some (ShowInput file p)
  | CreatingDirectory p => last actions = Some (ShowInput directory p)
  end.
Proof.
  rewrite useReducer_last.
  destruct (last actions) as [[[] path|]|]; simpl; auto.
Qed.

(** C7. The reducer ignores the state it is given: two states are taken
    to the same state by the same action, and dispatching an action a
    second time changes nothing. *)
Theorem reducer_state_independent (s1 s2 : State) (a : Action) :
  reducer s1 a = reducer s2 a ∧
  reducer (reducer s1 a) a = reducer s1 a.
Proof. by destruct a. Qed.

(** C9. The initial creation mode is [Idle], and it is still [Idle] after
    any sequence of actions none of which is a [ShowInput]. *)
Theorem initialState_idle (actions : list Action)
    (no_show : Forall (λ a, a = HideInput) actions) :
  creationMode initialState = Idle ∧
  creationMode (useReducer actions) = Idle.
Proof.
  split; [done|].
  rewrite useReducer_last.
  destruct (last actions) as [a|] eqn:Hlast; [|done].
  apply last_Some_elem_of in Hlast.
  by rewrite (proj1 (Forall_forall _ _) no_show a Hlast).
Qed.

Lemma initialState_idle_witness :
  creationMode initialState = Idle ∧
  creationMode (useReducer [HideInput; HideInput]) = Idle.
Proof. apply initialState_idle. repeat constructor. Defined.

End FileExplorerFacts.

(** * Properties of the workspace handle *)

Section WorkspaceFacts.
Import Workspaces.

(** ** Traces *)

Lemma perform_all_app (cs1 cs2 : list Call) (w : World) :
  perform_all (cs1 ++ cs2) w = perform_all cs2 (perform_all cs1 w).
Proof. unfold perform_all. by rewrite foldl_app. Qed.

Lemma calls_perform_all (cs : list Call) (w : World) :
  calls (perform_all cs w) = calls w ++ cs.
Proof.
  revert w. induction cs as [|c cs IH]; intros w; simpl.
  - by rewrite app_nil_r.
  - rewrite IH. simpl. by rewrite <- app_assoc.
Qed.

Lemma calls_since_perform_all (cs : list Call) (w : World) :
  calls_since w (perform_all cs w) = cs.
Proof.
  unfold calls_since. rewrite calls_perform_all. by rewrite drop_app_length.
Qed.

(** A loop whose body only makes calls makes the calls of its rounds, one
    round after the other, and runs to its end. *)
Lemma Effect_forEach_calls {A} (items : list A) (f : A → Eff unit)
    (round : A → list Call) (w : World) :
  (∀ item w, f item w = (Some tt, perform_all (round item) w)) →
  Effect_forEach items f w = (Some tt, perform_all (items ≫= round) w).
Proof.
  intros Hround. revert w.
  induction items as [|item items IH]; intros w; [done|].
  cbn [Effect_forEach]. unfold mbind at 1, Eff_bind.
  rewrite Hround, IH. cbn [mbind list_bind]. by rewrite perform_all_app.
Qed.

(** ** The solved flag *)

Lemma nullish_expected (solve : bool) (file : File) :
  (if solve then nullish (solution file) (initialContent file)
   else initialContent file) = expected_content solve file.
Proof. unfold expected_content, nullish. by destruct solve, (solution file). Qed.

Lemma solved_loop_run (workspace : Workspace) (updates : list bool) (w : World) :
  solved_loop workspace updates w =
    (Some tt,
     perform_all
       (updates ≫= λ solve,
          filePaths workspace ≫= λ '(file, path),
            [HandleWrite path (expected_content solve file)]) w).
Proof.
  unfold solved_loop, Stream_runForEach, Rx.stream.
  apply Effect_forEach_calls. intros solve w'.
  apply Effect_forEach_calls. intros [file path] w''.
  by rewrite nullish_expected.
Qed.

Lemma entries_bind_fmap (solve : bool) (entries : list (File * string)) :
  entries ≫= (λ '(file, path),
                [HandleWrite path (expected_content solve file)])
  = (λ '(file, path), HandleWrite path (expected_content solve file))
      <$> entries.
Proof.
  induction entries as [|[file path] entries IH]; [done|].
  simpl. f_equal. exact IH.
Qed.

Lemma solved_loop_rounds (workspace : Workspace) (updates : list bool)
    (w : World) :
  solved_loop workspace updates w =
    (Some tt, perform_all (updates ≫= round_writes workspace) w).
Proof.
  rewrite solved_loop_run. do 2 f_equal.
  induction updates as [|solve updates IH]; [done|].
  cbn [mbind list_bind]. rewrite IH. f_equal.
  apply entries_bind_fmap.
Qed.












(** Seventeen values are served, and the files are left as solved although
    the flag was cleared last. *)
Example solved_overflow_run :
  let events := demo_toggles 20 ++ replicate 20 Rx.Ready in
  last (Rx.notified events) = Some false ∧
  length (Rx.served events) = 17 ∧
  files (solved_loop demo_workspace (Rx.served events) empty_world).2
    !! "src/a.ts" = Some "export const a = 1".
Proof. cbn zeta. split; [done|]. split; [done|]. by vm_compute. Qed.



(** ** The resize counter *)





Lemma bind_const_replicate {A B} (l : list A) (b : B) :
  l ≫= (λ _, [b]) = replicate (length l) b.
Proof. induction l as [|x l IH]; [done|]. simpl. f_equal. exact IH. Qed.

Lemma resize_loop_run (held : nat) (upstream : list (nat * nat)) (w : World) :
  resize_loop held upstream w =
    (Some tt,
     perform_all (replicate (S (length (terminalSize upstream))) Resize) w).
Proof.
  unfold resize_loop, Stream_runForEach, Rx.stream.
  rewrite (Effect_forEach_calls _ _ (λ _, [Resize])) by done.
  rewrite bind_const_replicate. simpl. by rewrite length_fmap.
Qed.




(** ** The terminal session *)

(** Until [mount] has run, whatever the environment does makes no call:
    output is queued, typed data has no listener. *)
Lemma react_fresh cs fs pd q (s : Stimulus) :
  ∃ q',
    react s {| calls := cs; files := fs; prepare_done := pd;
               output_queue := q; output_sink := None;
               onData_listeners := [] |}
    = {| calls := cs; files := fs;
         prepare_done := pd || is_PrepareExit s;
         output_queue := q'; output_sink := None;
         onData_listeners := [] |}.
Proof.
  destruct s; simpl; eexists; rewrite ?orb_false_r, ?orb_true_r; reflexivity.
Qed.

Lemma deliver_fresh cs fs pd q (stimuli : list Stimulus) :
  ∃ q',
    deliver stimuli {| calls := cs; files := fs; prepare_done := pd;
                       output_queue := q; output_sink := None;
                       onData_listeners := [] |}
    = {| calls := cs; files := fs;
         prepare_done := pd || existsb is_PrepareExit stimuli;
         output_queue := q'; output_sink := None;
         onData_listeners := [] |}.
Proof.
  revert pd q. induction stimuli as [|s stimuli IH]; intros pd q.
  - exists q. simpl. by rewrite orb_false_r.
  - unfold deliver. cbn [foldl].
    destruct (react_fresh cs fs pd q s) as [q1 ->].
    destruct (IH (pd || is_PrepareExit s) q1) as [q2 Hq2].
    exists q2. unfold deliver in Hq2. rewrite Hq2. simpl.
    by rewrite orb_assoc.
Qed.

(** The await returns exactly when [prepare] exits, or has exited. *)
Lemma prepare_await_fresh cs fs pd q (during : list Stimulus) :
  ∃ q',
    prepare_await during {| calls := cs; files := fs; prepare_done := pd;
                            output_queue := q; output_sink := None;
                            onData_listeners := [] |}
    = if pd || existsb is_PrepareExit during
      then (Some tt,
            {| calls := cs ++ [PrepareAwait]; files := fs;
               prepare_done := true; output_queue := q';
               output_sink := None; onData_listeners := [] |})
      else (None,
            {| calls := cs; files := fs; prepare_done := false;
               output_queue := q'; output_sink := None;
               onData_listeners := [] |}).
Proof.
  revert pd q. induction during as [|s during IH]; intros pd q.
  - exists q. by destruct pd.
  - destruct pd; [by exists q|].
    cbn [prepare_await prepare_done existsb orb].
    destruct (react_fresh cs fs false q s) as [q1 ->].
    destruct (IH (false || is_PrepareExit s) q1) as [q2 ->].
    exists q2. by rewrite orb_false_l.
Qed.

Lemma bind_run {A B} (m : Eff A) (f : A → Eff B) (w w' : World) (a : A) :
  m w = (Some a, w') → (m ≫= f) w = f a w'.
Proof. intros Hm. unfold mbind, Eff_bind. by rewrite Hm. Qed.

Lemma bind_suspended {A B} (m : Eff A) (f : A → Eff B) (w w' : World) :
  m w = (None, w') → (m ≫= f) w = (None, w').
Proof. intros Hm. unfold mbind, Eff_bind. by rewrite Hm. Qed.

(** The session on a fresh world, run to its end. *)
Lemma terminal_session_run (workspace : Workspace) (env : WorkspaceShell)
    (schedule : Schedule) cs fs pd q :
  ∃ w',
    terminal_session workspace env schedule
      {| calls := cs; files := fs; prepare_done := pd; output_queue := q;
         output_sink := None; onData_listeners := [] |}
    = (if pd || existsb is_PrepareExit
                  (at_fork schedule ++ during_await schedule)
       then Some tt else None, w') ∧
    calls w' =
      cs ++
      [TerminalWrite ("Loading workspace..." +:+ newline);
       InputWrite ("cd " +:+ dquote +:+ name workspace +:+ dquote
                   +:+ " && clear" +:+ newline)] ++
      if pd || existsb is_PrepareExit
                 (at_fork schedule ++ during_await schedule)
      then
        PrepareAwait ::
        match command env with
        | Some (String _ _ as cmd) =>
            [Sleep 3000; OutputPipeTo; TerminalOnData;
             InputWrite (cmd +:+ newline)]
        | _ => [OutputPipeTo; TerminalOnData]
        end
      else [].
Proof.
  unfold terminal_session.
  set (loading := "Loading workspace..." +:+ newline).
  set (cd := "cd " +:+ dquote +:+ name workspace +:+ dquote
             +:+ " && clear" +:+ newline).
  erewrite bind_run by reflexivity.
  unfold Effect_forkScoped, perform. cbn [calls files prepare_done
    output_queue output_sink onData_listeners].
  destruct (deliver_fresh (cs ++ [TerminalWrite loading]) fs pd q
              (at_fork schedule)) as [q1 ->].
  erewrite bind_run by reflexivity.
  unfold perform. cbn [calls files prepare_done output_queue output_sink
                       onData_listeners].
  destruct (prepare_await_fresh
              ((cs ++ [TerminalWrite loading]) ++ [InputWrite cd]) fs
              (pd || existsb is_PrepareExit (at_fork schedule)) q1
              (during_await schedule)) as [q2 Hawait].
  rewrite existsb_app, orb_assoc.
  destruct (pd || existsb is_PrepareExit (at_fork schedule)
            || existsb is_PrepareExit (during_await schedule)).
  - erewrite bind_run by exact Hawait.
    destruct (command env) as [[|a cmd]|]; cbn [truthy template].
    + eexists. split; [reflexivity|]. simpl. by rewrite <- !app_assoc.
    + destruct (deliver_fresh
                  (((cs ++ [TerminalWrite loading]) ++ [InputWrite cd])
                   ++ [PrepareAwait]) fs true q2 (during_sleep schedule))
        as [q3 Hsleep].
      unfold Effect_sleep. erewrite bind_run; [|by rewrite Hsleep].
      eexists. split; [reflexivity|]. simpl. by rewrite <- !app_assoc.
    + eexists. split; [reflexivity|]. simpl. by rewrite <- !app_assoc.
  - erewrite bind_suspended by exact Hawait.
    eexists. split; [reflexivity|]. simpl. by rewrite <- !app_assoc.
Qed.

(** C5. A terminal session on a fresh terminal and shell makes its calls
    in this order: the terminal is written ["Loading workspace..."] and
    a newline; the shell input is written [cd "<name>" && clear] and a
    newline; [prepare] is awaited.  If [prepare] never exits nothing
    more happens.  Once it has exited the terminal is mounted; when the
    shell has a command, three seconds of sleep come before the mount
    and the command and a newline are written to the shell input after
    it. *)
Theorem terminal_session_order (workspace : Workspace) (env : WorkspaceShell)
    (schedule : Schedule) (w : World) (Hfresh : fresh w) :
  let result := terminal_session workspace env schedule w in
  let greeting :=
    [TerminalWrite ("Loading workspace..." +:+ newline);
     InputWrite ("cd " +:+ dquote +:+ name workspace +:+ dquote
                 +:+ " && clear" +:+ newline)] in
  let wiring := [OutputPipeTo; TerminalOnData] in
  if prepare_done w
     || existsb is_PrepareExit (at_fork schedule ++ during_await schedule)
  then
    result.1 = Some tt ∧
    calls_since w result.2 =
      greeting ++ [PrepareAwait] ++
      match command env with
      | Some (String _ _ as cmd) =>
          [Sleep 3000] ++ wiring ++ [InputWrite (cmd +:+ newline)]
      | _ => wiring
      end
  else
    result.1 = None ∧ calls_since w result.2 = greeting.
Proof.
  destruct w as [cs fs pd q sink listeners].
  destruct Hfresh as [Hsink Hlisteners]. simpl in Hsink, Hlisteners. subst.
  destruct (terminal_session_run workspace env schedule cs fs pd q)
    as (w' & Hrun & Hcalls).
  cbn zeta. rewrite Hrun. unfold calls_since. cbn [fst snd calls prepare_done].
  rewrite Hcalls, drop_app_length.
  by destruct (pd || existsb is_PrepareExit
                       (at_fork schedule ++ during_await schedule)).
Qed.

Lemma terminal_session_order_witness :
  (terminal_session demo_workspace demo_shell demo_schedule empty_world).1
    = Some tt ∧
  calls (terminal_session demo_workspace demo_shell demo_schedule
           empty_world).2
    = [TerminalWrite ("Loading workspace..." +:+ newline);
       InputWrite ("cd " +:+ dquote +:+ "demo" +:+ dquote +:+ " && clear"
                   +:+ newline);
       PrepareAwait; Sleep 3000; OutputPipeTo; TerminalOnData;
       InputWrite ("npm start" +:+ newline)].
Proof.
  exact (terminal_session_order demo_workspace demo_shell demo_schedule
           empty_world (conj eq_refl eq_refl)).
Defined.

(** ** Mounting *)

Lemma terminal_written_perform_all (cs : list Call) (w : World) :
  terminal_written (perform_all cs w) =
    terminal_written w ++
    omap (λ c, match c with TerminalWrite data => Some data | _ => None end) cs.
Proof. unfold terminal_written. by rewrite calls_perform_all, omap_app. Qed.

Lemma input_written_perform_all (cs : list Call) (w : World) :
  input_written (perform_all cs w) =
    input_written w ++
    omap (λ c, match c with InputWrite data => Some data | _ => None end) cs.
Proof. unfold input_written. by rewrite calls_perform_all, omap_app. Qed.

(** One step of the environment on a mounted terminal: the wiring stays,
    no chunk of output is lost or altered, and typed data reaches the
    shell input. *)
Lemma react_wired (s : Stimulus) (w : World) :
  wired w →
  wired (react s w) ∧
  terminal_written (react s w) ++ output_queue (react s w)
    = terminal_written w ++ output_queue w ++ emitted [s] ∧
  input_written (react s w) = input_written w ++ typed [s].
Proof.
  destruct w as [cs fs pd q sink listeners].
  intros [Hsink Hlisteners]. simpl in Hsink, Hlisteners. subst.
  destruct s as [data| |data|]; cbn [react output_sink output_queue
                                      onData_listeners].
  - split; [done|]. unfold terminal_written, input_written. simpl.
    by rewrite !app_nil_r.
  - destruct q as [|chunk rest].
    + split; [done|]. simpl. by rewrite !app_nil_r.
    + split; [done|].
      unfold terminal_written, input_written. simpl.
      rewrite !omap_app. simpl. by rewrite !app_nil_r, <- !app_assoc.
  - split; [done|]. unfold terminal_written, input_written. simpl.
    rewrite !omap_app. simpl. by rewrite !app_nil_r.
  - split; [done|]. unfold terminal_written, input_written. simpl.
    by rewrite !app_nil_r.
Qed.

Lemma emitted_cons (s : Stimulus) (stimuli : list Stimulus) :
  emitted (s :: stimuli) = emitted [s] ++ emitted stimuli.
Proof. by destruct s. Qed.

Lemma typed_cons (s : Stimulus) (stimuli : list Stimulus) :
  typed (s :: stimuli) = typed [s] ++ typed stimuli.
Proof. by destruct s. Qed.

Lemma deliver_wired (stimuli : list Stimulus) (w : World) :
  wired w →
  wired (deliver stimuli w) ∧
  terminal_written (deliver stimuli w) ++ output_queue (deliver stimuli w)
    = terminal_written w ++ output_queue w ++ emitted stimuli ∧
  input_written (deliver stimuli w) = input_written w ++ typed stimuli.
Proof.
  revert w. induction stimuli as [|s stimuli IH]; intros w Hw.
  - simpl. by rewrite !app_nil_r.
  - destruct (react_wired s w Hw) as (Hw1 & Hout1 & Hin1).
    destruct (IH (react s w) Hw1) as (Hw2 & Hout2 & Hin2).
    change (deliver (s :: stimuli) w) with (deliver stimuli (react s w)).
    split; [done|]. split.
    + rewrite Hout2, (app_assoc (terminal_written (react s w))), Hout1.
      rewrite (emitted_cons s stimuli). by rewrite <- !app_assoc.
    + rewrite Hin2, Hin1.
      rewrite (typed_cons s stimuli). by rewrite <- !app_assoc.
Qed.

(** Once the pipe has read as often as chunks are queued, the queue is
    empty and its chunks are on the terminal. *)
Lemma drain_wired (w : World) :
  wired w →
  let drained := deliver (replicate (length (output_queue w)) PipeRead) w in
  output_queue drained = [] ∧
  terminal_written drained = terminal_written w ++ output_queue w.
Proof.
  remember (length (output_queue w)) as n eqn:Hn.
  revert w Hn. induction n as [|n IH]; intros w Hn Hw; cbn zeta.
  - change (deliver (replicate 0 PipeRead) w) with w.
    destruct (output_queue w); [|done]. by rewrite app_nil_r.
  - change (deliver (replicate (S n) PipeRead) w)
      with (deliver (replicate n PipeRead) (react PipeRead w)).
    destruct (react_wired PipeRead w Hw) as (Hw1 & Hout1 & _).
    destruct w as [cs fs pd q sink listeners].
    destruct Hw as [Hsink Hlisteners]. simpl in Hsink, Hlisteners, Hn. subst.
    destruct q as [|chunk rest]; [done|]. injection Hn as Hn.
    set (w1 := react PipeRead _) in *.
    assert (output_queue w1 = rest) as Hrest by done.
    rewrite Hrest in Hout1. simpl in Hout1. rewrite app_nil_r in Hout1.
    change (chunk :: rest) with ([chunk] ++ rest) in Hout1.
    rewrite app_assoc in Hout1. apply app_inv_tail in Hout1.
    destruct (IH w1) as [Hq Hwritten]; [by rewrite Hrest|done|].
    split; [exact Hq|].
    rewrite Hwritten, Hrest, Hout1. simpl. by rewrite <- app_assoc.
Qed.

(** C6. Mounting a fresh terminal wires both directions.  Whatever the
    environment does afterwards, the chunks written to the terminal
    followed by the chunks still queued are the chunks the shell has
    emitted, unchanged and in order; once the pipe has read the queue
    empty they are all on the terminal; and the chunks written to the
    shell input are those the terminal reported through [onData],
    unchanged and in order. *)
Theorem mount_wires_both_directions (w : World) (stimuli : list Stimulus)
    (Hfresh : fresh w) :
  let mounted := (mount w).2 in
  let later := deliver stimuli mounted in
  let drained :=
    deliver (replicate (length (output_queue later)) PipeRead) later in
  (mount w).1 = Some tt ∧
  terminal_written later ++ output_queue later
    = terminal_written w ++ output_queue w ++ emitted stimuli ∧
  terminal_written drained
    = terminal_written w ++ output_queue w ++ emitted stimuli ∧
  output_queue drained = [] ∧
  input_written later = input_written w ++ typed stimuli.
Proof.
  destruct w as [cs fs pd q sink listeners].
  destruct Hfresh as [Hsink Hlisteners]. simpl in Hsink, Hlisteners. subst.
  cbn zeta.
  set (mounted := (mount _).2).
  assert (wired mounted) as Hwired by done.
  assert (terminal_written mounted = terminal_written
            {| calls := cs; files := fs; prepare_done := pd;
               output_queue := q; output_sink := None;
               onData_listeners := [] |}) as Hterm.
  { unfold terminal_written. simpl. rewrite !omap_app. simpl.
    by rewrite !app_nil_r. }
  assert (input_written mounted = input_written
            {| calls := cs; files := fs; prepare_done := pd;
               output_queue := q; output_sink := None;
               onData_listeners := [] |}) as Hinp.
  { unfold input_written. simpl. rewrite !omap_app. simpl.
    by rewrite !app_nil_r. }
  destruct (deliver_wired stimuli mounted Hwired) as (Hlater & Hout & Hin).
  destruct (drain_wired (deliver stimuli mounted) Hlater) as [Hq Hdrained].
  rewrite Hterm in Hout. rewrite Hinp in Hin.
  split; [done|]. split; [exact Hout|]. split; [|split; [exact Hq|exact Hin]].
  rewrite Hdrained. exact Hout.
Qed.

Lemma mount_wires_both_directions_witness :
  let later :=
    deliver [ShellEmit "a"; TerminalData "ls"; PipeRead; ShellEmit "b"]
      (mount empty_world).2 in
  terminal_written later ++ output_queue later = ["a"; "b"] ∧
  input_written later = ["ls"].
Proof.
  pose proof (mount_wires_both_directions empty_world
                [ShellEmit "a"; TerminalData "ls"; PipeRead; ShellEmit "b"]
                (conj eq_refl eq_refl)) as (_ & Hout & _ & _ & Hin).
  split; [exact Hout|exact Hin].
Defined.

End WorkspaceFacts.

(** * Further properties *)

Section FurtherFacts.
Import FileExplorer Workspaces.

(** ** The reducer *)

(** X1. The state the reducer returns tells the action apart: two actions
    that lead to the same state, from whatever states, are the same action.
    A file is never taken for a directory and no path is lost. *)
Theorem reducer_action_injective (s1 s2 : State) (a b : Action)
    (same : reducer s1 a = reducer s2 b) :
  a = b.
Proof.
  destruct a as [[] p|], b as [[] q|]; cbv in same; congruence.
Qed.

Lemma reducer_action_injective_witness :
  ShowInput file "src/a.ts" = ShowInput file "src/a.ts".
Proof.
  apply (reducer_action_injective initialState
           {| creationMode := CreatingDirectory "src" |}).
  reflexivity.
Defined.

(** ** The terminal theme *)

(** X2. Once the application theme has changed, the terminal has the theme
    of the latest value, whatever it was spawned with: the light theme
    when that value is ["light"], and the dark one for any other value. *)
Theorem terminal_theme_follows (spawned : TerminalTheme)
    (later : list string) (theme : string)
    (latest : last later = Some theme) :
  terminal_options_theme spawned later = terminalTheme theme ∧
  (terminal_options_theme spawned later = NightOwlishLightTheme
   ↔ theme = "light") ∧
  (terminal_options_theme spawned later = MonokaiSodaTheme
   ↔ theme ≠ "light").
Proof.
  assert (terminal_options_theme spawned later = terminalTheme theme) as ->.
  { unfold terminal_options_theme.
    destruct later as [|x later _] using rev_ind; [done|].
    rewrite last_snoc in latest. injection latest as ->.
    by rewrite fmap_app, foldl_app. }
  split; [done|]. unfold terminalTheme.
  destruct (decide (theme = "light")); split; split; done.
Qed.

Lemma terminal_theme_follows_witness :
  terminal_options_theme NightOwlishLightTheme ["light"; "dark"]
    = MonokaiSodaTheme.
Proof.
  exact (proj1 (terminal_theme_follows NightOwlishLightTheme
                  ["light"; "dark"] "dark" eq_refl)).
Defined.

(** ** The resize counter *)

(** X3. After [n] writes the size counter is [n], and the value handed to
    the [Rx] by the last of them is [n - 1]: the first write hands over 0,
    the value the [Rx] holds from the start. *)
Theorem terminalSize_write_iter (n : nat) :
  Nat.iter n terminalSize_write terminalSize_initial
    = {| size := n; self := n - 1 |}.
Proof.
  induction n as [|n IH]; [done|].
  rewrite Nat.iter_succ, IH. unfold terminalSize_write. simpl.
  f_equal; lia.
Qed.

Lemma debounce_pending_values {A} (millis deadline : nat) (latest : A)
    (upstream : list (nat * A)) :
  (snd <$> Rx.debounce_pending millis deadline latest upstream)
    `sublist_of` (latest :: (snd <$> upstream)).
Proof.
  revert deadline latest.
  induction upstream as [|[t value] later IH]; intros deadline latest.
  - done.
  - cbn [Rx.debounce_pending]. destruct (decide (t < deadline)).
    + apply sublist_cons, IH.
    + rewrite fmap_cons. apply sublist_skip, IH.
Qed.

(** X4. Debouncing only drops values: the values the subscribers of
    [terminalSize] are notified of are a sub-sequence of the values the
    writable notified; none is reordered, repeated or altered.  So the
    resize loop never resizes more often than once plus once per
    notification of the writable. *)
Theorem terminalSize_only_drops (held : nat) (upstream : list (nat * nat))
    (w : World) :
  (snd <$> terminalSize upstream) `sublist_of` (snd <$> upstream) ∧
  length (calls_since w (resize_loop held upstream w).2)
    ≤ 1 + length upstream.
Proof.
  assert ((snd <$> terminalSize upstream) `sublist_of` (snd <$> upstream))
    as Hsub.
  { unfold terminalSize, Rx.debounce.
    destruct upstream as [|[t value] later]; [done|].
    apply debounce_pending_values. }
  split; [done|].
  rewrite resize_loop_run. cbn [snd].
  rewrite calls_since_perform_all, length_replicate.
  apply sublist_length in Hsub. rewrite !length_fmap in Hsub. lia.
Qed.

(** After its first write every write changes the value of the writable,
    so every one is notified; a burst of them is published as one. *)
Lemma writable_burst (rest : list nat) (n latest deadline : nat) :
  Forall (λ t, t < deadline) rest →
  Rx.debounce_pending 250 deadline latest
    (writable_notifications {| size := S n; self := n |} rest)
  = [(deadline, match rest with [] => latest | _ => n + length rest end)].
Proof.
  revert n latest. induction rest as [|t rest IH]; intros n latest Hburst.
  - done.
  - apply Forall_cons in Hburst as [Ht Hburst].
    cbn [writable_notifications terminalSize_write size self].
    destruct (decide (S n = n)) as [?|_]; [lia|].
    cbn [Rx.debounce_pending]. destruct (decide (t < deadline)); [|lia].
    replace (terminalSize_write {| size := S n; self := n |})
      with {| size := S (S n); self := S n |}
      by (unfold terminalSize_write; simpl; f_equal; lia).
    rewrite (IH (S n) (S n) Hburst). do 2 f_equal.
    destruct rest; simpl; lia.
Qed.

(** X5. A burst is one resize.  The first write to [terminalSize] is not
    notified; when all writes after the second come less than 250
    milliseconds after the second, the subscribers of [terminalSize] are
    notified once, 250 milliseconds after the second write and with the
    value of the last one, and the resize loop resizes twice in all, once
    for the value held at subscription and once for the burst. *)
Theorem terminalSize_burst (held first second : nat) (rest : list nat)
    (w : World)
    (burst : Forall (λ t, t < second + 250) rest) :
  let notified :=
    writable_notifications terminalSize_initial (first :: second :: rest) in
  terminalSize notified = [(second + 250, 1 + length rest)] ∧
  calls_since w (resize_loop held notified w).2 = [Resize; Resize].
Proof.
  cbn zeta.
  assert (terminalSize
            (writable_notifications terminalSize_initial
               (first :: second :: rest))
          = [(second + 250, 1 + length rest)]) as Hone.
  { unfold terminalSize.
    change (writable_notifications terminalSize_initial
              (first :: second :: rest))
      with ((second, 1)
            :: writable_notifications {| size := 2; self := 1 |} rest).
    unfold Rx.debounce.
    rewrite (writable_burst rest 1 1 (second + 250) burst).
    by destruct rest. }
  split; [done|].
  rewrite resize_loop_run. cbn [snd].
  by rewrite calls_since_perform_all, Hone.
Qed.

Lemma terminalSize_burst_witness :
  terminalSize (writable_notifications terminalSize_initial [0; 10; 100; 250])
    = [(260, 3)] ∧
  calls_since empty_world
    (resize_loop 0
       (writable_notifications terminalSize_initial [0; 10; 100; 250])
       empty_world).2
    = [Resize; Resize].
Proof.
  apply (terminalSize_burst 0 0 10 [100; 250] empty_world).
  repeat constructor; lia.
Defined.

Lemma debounce_spaced {A} (millis : nat) (upstream : list (nat * A)) :
  adjacent (λ a b, a + millis ≤ b) upstream →
  Rx.debounce millis upstream = (λ '(t, v), (t + millis, v)) <$> upstream.
Proof.
  destruct upstream as [|[t0 value] later]; [done|].
  unfold Rx.debounce. revert t0 value.
  induction later as [|[t' value'] later IH]; intros t0 value Hspaced;
    [done|].
  destruct Hspaced as [Hfar Hspaced].
  cbn [Rx.debounce_pending]. destruct (decide (t' < t0 + millis)); [lia|].
  rewrite (IH t' value' Hspaced). reflexivity.
Qed.

(** X6. Notifications that are far apart all get through.  When each
    notification of the writable comes at least 250 milliseconds after the
    one before, the subscribers of [terminalSize] are notified of every one
    of them, 250 milliseconds late, and the resize loop resizes once for
    each, after the resize for the value held at subscription. *)
Theorem terminalSize_spaced (held : nat) (upstream : list (nat * nat))
    (w : World)
    (spaced : adjacent (λ a b, a + 250 ≤ b) upstream) :
  terminalSize upstream = (λ '(t, v), (t + 250, v)) <$> upstream ∧
  calls_since w (resize_loop held upstream w).2
    = replicate (1 + length upstream) Resize.
Proof.
  assert (terminalSize upstream = (λ '(t, v), (t + 250, v)) <$> upstream)
    as Hall by by apply debounce_spaced.
  split; [done|].
  rewrite resize_loop_run. cbn [snd].
  by rewrite calls_since_perform_all, Hall, length_fmap.
Qed.

Lemma terminalSize_spaced_witness :
  terminalSize [(0, 0); (250, 1); (900, 2)] = [(250, 0); (500, 1); (1150, 2)] ∧
  calls_since empty_world
    (resize_loop 0 [(0, 0); (250, 1); (900, 2)] empty_world).2
    = replicate 4 Resize.
Proof.
  apply (terminalSize_spaced 0 [(0, 0); (250, 1); (900, 2)] empty_world).
  simpl. lia.
Defined.

(** ** The solved flag *)

Lemma files_untouched (cs : list Call) (w : World) (path : string) :
  (∀ content, HandleWrite path content ∉ cs) →
  files (perform_all cs w) !! path = files w !! path.
Proof.
  induction cs as [|c cs IH] using rev_ind; intros Hnot; [done|].
  rewrite perform_all_app. simpl.
  assert (files (perform_all cs w) !! path = files w !! path) as Hrec.
  { apply IH. intros content Hin. apply (Hnot content).
    apply elem_of_app. by left. }
  destruct c as [| | | | | |path' content'|]; try done.
  rewrite lookup_insert_ne; [done|]. intros ->.
  apply (Hnot content'). apply elem_of_app. right. by apply list_elem_of_singleton.
Qed.

(** Writes level the worlds they are made in: two worlds that agree on the
    paths not written to hold the same files afterwards. *)
Lemma files_agree (cs : list Call) (w1 w2 : World) :
  (∀ path, (∀ content, HandleWrite path content ∉ cs) →
           files w1 !! path = files w2 !! path) →
  files (perform_all cs w1) = files (perform_all cs w2).
Proof.
  revert w1 w2. induction cs as [|c cs IH]; intros w1 w2 Hagree.
  - apply map_eq. intros path. apply Hagree. intros content.
    apply not_elem_of_nil.
  - change (perform_all (c :: cs) w1) with (perform_all cs (perform c w1)).
    change (perform_all (c :: cs) w2) with (perform_all cs (perform c w2)).
    apply IH. intros path Hnot.
    assert ((∀ content, c ≠ HandleWrite path content) →
            files w1 !! path = files w2 !! path) as Hsame.
    { intros Hc. apply Hagree. intros content. apply not_elem_of_cons.
      split; [|apply Hnot]. intros Heq. by apply (Hc content). }
    destruct c as [| | | | | |path' content'|]; try (by apply Hsame).
    simpl. destruct (decide (path' = path)) as [->|Hne].
    + by rewrite !lookup_insert_eq.
    + rewrite !lookup_insert_ne by done. apply Hsame. congruence.
Qed.

Lemma round_writes_path (workspace : Workspace) (solve : bool)
    (path content : string) :
  HandleWrite path content ∈ round_writes workspace solve →
  path ∈ (snd <$> filePaths workspace).
Proof.
  unfold round_writes. intros ([file path'] & [= -> _] & Hin)%list_elem_of_fmap.
  apply list_elem_of_fmap. by exists (file, path').
Qed.

Lemma round_writes_covers (workspace : Workspace) (solve : bool)
    (path : string) :
  path ∈ (snd <$> filePaths workspace) →
  ∃ content, HandleWrite path content ∈ round_writes workspace solve.
Proof.
  intros ([file path'] & -> & Hin)%list_elem_of_fmap.
  exists (expected_content solve file). unfold round_writes.
  apply list_elem_of_fmap. by exists (file, path').
Qed.

Lemma rounds_path (workspace : Workspace) (updates : list bool)
    (path content : string) :
  HandleWrite path content ∈ (updates ≫= round_writes workspace) →
  path ∈ (snd <$> filePaths workspace).
Proof.
  intros (solve & Hin & _)%list_elem_of_bind.
  by apply round_writes_path in Hin.
Qed.

Lemma rounds_only_write (workspace : Workspace) (updates : list bool)
    {B} (f : Call → option B) :
  (∀ path content, f (HandleWrite path content) = None) →
  omap f (updates ≫= round_writes workspace) = [].
Proof.
  intros Hf.
  assert (∀ cs : list Call,
            Forall (λ c, ∃ path content, c = HandleWrite path content) cs →
            omap f cs = []) as Hnone.
  { induction 1 as [|c cs (path & content & ->) _ IH]; [done|].
    simpl. by rewrite Hf. }
  apply Hnone, Forall_forall. intros c (solve & Hin & _)%list_elem_of_bind.
  unfold round_writes in Hin.
  apply list_elem_of_fmap in Hin as ([file path] & -> & _). eauto.
Qed.

(** X7. The files depend only on the value the stream of the solved flag
    handed to the loop last: after any run of notifications and rounds,
    the container holds exactly the files it would hold had that value
    been the only one.  It is the latest value of the flag unless the
    queue of the stream has dropped it. *)
Theorem solved_latest_decides (workspace : Workspace)
    (events : list (Rx.StreamEvent bool)) (solve : bool) (w : World)
    (latest : last (Rx.served events) = Some solve) :
  files (solved_loop workspace (Rx.served events) w).2
    = files (solved_loop workspace [solve] w).2.
Proof.
  apply last_Some in latest as [earlier ->].
  rewrite !solved_loop_rounds. cbn [snd].
  rewrite bind_app, perform_all_app. cbn [mbind list_bind].
  rewrite app_nil_r. apply files_agree. intros path Hnot.
  apply files_untouched. intros content Hin.
  apply rounds_path in Hin.
  destruct (round_writes_covers workspace solve path Hin) as [content' Hin'].
  by apply (Hnot content').
Qed.

Lemma solved_latest_decides_witness :
  files (solved_loop demo_workspace
           (Rx.served (demo_toggles 20 ++ replicate 20 Rx.Ready))
           empty_world).2
    = files (solved_loop demo_workspace [true] empty_world).2.
Proof.
  apply solved_latest_decides. reflexivity.
Defined.

(** X8. The solved loop writes workspace files and nothing else: a path
    that is not among the workspace's file paths holds what it held before,
    and nothing is written to the terminal or to the shell input. *)
Theorem solved_loop_confined (workspace : Workspace) (updates : list bool)
    (w : World) (path : string)
    (foreign : path ∉ (snd <$> filePaths workspace)) :
  let w' := (solved_loop workspace updates w).2 in
  files w' !! path = files w !! path ∧
  terminal_written w' = terminal_written w ∧
  input_written w' = input_written w.
Proof.
  cbn zeta. rewrite solved_loop_rounds. cbn [snd].
  split; [|split].
  - apply files_untouched. intros content Hin.
    by apply rounds_path in Hin.
  - rewrite terminal_written_perform_all, rounds_only_write by done.
    by rewrite app_nil_r.
  - rewrite input_written_perform_all, rounds_only_write by done.
    by rewrite app_nil_r.
Qed.

Lemma solved_loop_confined_witness :
  let w := perform (HandleWrite "package.json" "{}") empty_world in
  let w' := (solved_loop demo_workspace [true; false; true] w).2 in
  files w' !! "package.json" = Some "{}" ∧
  terminal_written w' = [] ∧
  input_written w' = [].
Proof.
  apply (solved_loop_confined demo_workspace [true; false; true]
           (perform (HandleWrite "package.json" "{}") empty_world)
           "package.json").
  simpl. intros Hin.
  repeat (apply elem_of_cons in Hin as [Heq|Hin]; [discriminate Heq|]).
  by apply elem_of_nil in Hin.
Defined.

(** ** The terminal session, seen from the terminal *)

Lemma emitted_app (s1 s2 : list Stimulus) :
  emitted (s1 ++ s2) = emitted s1 ++ emitted s2.
Proof. unfold emitted. apply omap_app. Qed.

Lemma react_fresh_queue cs fs pd q (s : Stimulus) :
  react s {| calls := cs; files := fs; prepare_done := pd;
             output_queue := q; output_sink := None;
             onData_listeners := [] |}
  = {| calls := cs; files := fs; prepare_done := pd || is_PrepareExit s;
       output_queue := q ++ emitted [s]; output_sink := None;
       onData_listeners := [] |}.
Proof.
  destruct s; simpl; rewrite ?orb_false_r, ?orb_true_r, ?app_nil_r;
    reflexivity.
Qed.

Lemma deliver_fresh_queue cs fs pd q (stimuli : list Stimulus) :
  deliver stimuli {| calls := cs; files := fs; prepare_done := pd;
                     output_queue := q; output_sink := None;
                     onData_listeners := [] |}
  = {| calls := cs; files := fs;
       prepare_done := pd || existsb is_PrepareExit stimuli;
       output_queue := q ++ emitted stimuli; output_sink := None;
       onData_listeners := [] |}.
Proof.
  revert pd q. induction stimuli as [|s stimuli IH]; intros pd q.
  - simpl. by rewrite orb_false_r, app_nil_r.
  - change (deliver (s :: stimuli) ?w) with (deliver stimuli (react s w)).
    rewrite react_fresh_queue, IH, (emitted_cons s stimuli). simpl.
    by rewrite orb_assoc, app_assoc.
Qed.

Lemma prepare_await_queue cs fs pd q (during : list Stimulus) :
  prepare_await during {| calls := cs; files := fs; prepare_done := pd;
                          output_queue := q; output_sink := None;
                          onData_listeners := [] |}
  = if pd || existsb is_PrepareExit during
    then (Some tt,
          {| calls := cs ++ [PrepareAwait]; files := fs;
             prepare_done := true;
             output_queue := q ++ emitted (awaited pd during);
             output_sink := None; onData_listeners := [] |})
    else (None,
          {| calls := cs; files := fs; prepare_done := false;
             output_queue := q ++ emitted (awaited pd during);
             output_sink := None; onData_listeners := [] |}).
Proof.
  revert pd q. induction during as [|s during IH]; intros pd q.
  - destruct pd; simpl; by rewrite app_nil_r.
  - destruct pd; [simpl; by rewrite app_nil_r|].
    cbn [prepare_await prepare_done existsb orb awaited].
    rewrite react_fresh_queue, IH, (emitted_cons s (awaited _ during)).
    rewrite orb_false_l, app_assoc. reflexivity.
Qed.

(** The world a session leaves behind, field by field. *)
Lemma terminal_session_world (workspace : Workspace) (env : WorkspaceShell)
    (schedule : Schedule) cs fs pd q :
  terminal_session workspace env schedule
    {| calls := cs; files := fs; prepare_done := pd; output_queue := q;
       output_sink := None; onData_listeners := [] |}
  = (if resumes pd schedule then Some tt else None,
     {| calls :=
          cs ++
          [TerminalWrite ("Loading workspace..." +:+ newline);
           InputWrite ("cd " +:+ dquote +:+ name workspace +:+ dquote
                       +:+ " && clear" +:+ newline)] ++
          (if resumes pd schedule
           then PrepareAwait ::
                if truthy (command env)
                then [Sleep 3000; OutputPipeTo; TerminalOnData;
                      InputWrite (template (command env) +:+ newline)]
                else [OutputPipeTo; TerminalOnData]
           else []);
        files := fs;
        prepare_done := resumes pd schedule;
        output_queue := q ++ emitted (seen pd env schedule);
        output_sink :=
          if resumes pd schedule
          then Some (λ data, [TerminalWrite data]) else None;
        onData_listeners :=
          if resumes pd schedule
          then [λ data, [InputWrite data]] else [] |}).
Proof.
  unfold terminal_session, seen, resumes.
  set (loading := "Loading workspace..." +:+ newline).
  set (cd := "cd " +:+ dquote +:+ name workspace +:+ dquote
             +:+ " && clear" +:+ newline).
  erewrite bind_run by reflexivity.
  unfold Effect_forkScoped, perform. cbn [calls files prepare_done
    output_queue output_sink onData_listeners].
  rewrite deliver_fresh_queue.
  erewrite bind_run by reflexivity.
  unfold perform. cbn [calls files prepare_done output_queue output_sink
                       onData_listeners].
  pose proof (prepare_await_queue
                ((cs ++ [TerminalWrite loading]) ++ [InputWrite cd]) fs
                (pd || existsb is_PrepareExit (at_fork schedule))
                (q ++ emitted (at_fork schedule))
                (during_await schedule)) as Hawait.
  rewrite existsb_app, orb_assoc, !emitted_app.
  destruct (pd || existsb is_PrepareExit (at_fork schedule)
            || existsb is_PrepareExit (during_await schedule)).
  - erewrite bind_run by exact Hawait.
    destruct (truthy (command env)); cbn [andb].
    + unfold Effect_sleep. erewrite bind_run;
        [|by rewrite deliver_fresh_queue].
      cbv [mount mbind Eff_bind output_pipeTo terminal_onData input_write
           call perform calls files prepare_done output_queue output_sink
           onData_listeners].
      do 2 f_equal; by rewrite <- !app_assoc.
    + cbv [mount mbind Eff_bind output_pipeTo terminal_onData call perform
           calls files prepare_done output_queue output_sink
           onData_listeners].
      do 2 f_equal; by rewrite <- !app_assoc, ?app_nil_r.
  - erewrite bind_suspended by exact Hawait.
    do 2 f_equal; by rewrite <- !app_assoc, ?app_nil_r.
Qed.

(** X9. While a session on a fresh terminal and shell runs, the terminal
    shows the loading line and nothing else: whatever the shell emits is
    kept in the queue of its output, none of it lost.  What is typed
    meanwhile never reaches the shell, whose input gets the [cd] line and,
    when the session gets to it, the command.  The files are not touched. *)
Theorem terminal_session_holds_back (workspace : Workspace)
    (env : WorkspaceShell) (schedule : Schedule) (w : World)
    (Hfresh : fresh w) :
  let after := (terminal_session workspace env schedule w).2 in
  terminal_written after
    = terminal_written w ++ ["Loading workspace..." +:+ newline] ∧
  output_queue after
    = output_queue w ++ emitted (seen (prepare_done w) env schedule) ∧
  input_written after
    = input_written w ++
      ["cd " +:+ dquote +:+ name workspace +:+ dquote +:+ " && clear"
       +:+ newline] ++
      (if resumes (prepare_done w) schedule && truthy (command env)
       then [template (command env) +:+ newline] else []) ∧
  files after = files w.
Proof.
  destruct w as [cs fs pd q sink listeners].
  destruct Hfresh as [Hsink Hlisteners]. simpl in Hsink, Hlisteners. subst.
  cbn zeta. rewrite terminal_session_world.
  unfold terminal_written, input_written. cbn [snd calls files output_queue
                                                 prepare_done].
  rewrite !omap_app.
  destruct (resumes pd schedule), (truthy (command env)); by simpl.
Qed.

Lemma terminal_session_holds_back_witness :
  let after :=
    (terminal_session demo_workspace demo_shell demo_schedule empty_world).2 in
  terminal_written after = ["Loading workspace..." +:+ newline] ∧
  output_queue after = ["$ "; "ready"; "> "] ∧
  input_written after
    = ["cd " +:+ dquote +:+ "demo" +:+ dquote +:+ " && clear" +:+ newline;
       "npm start" +:+ newline] ∧
  files after = ∅.
Proof.
  exact (terminal_session_holds_back demo_workspace demo_shell demo_schedule
           empty_world (conj eq_refl eq_refl)).
Defined.

(** X10. A session on a fresh terminal and shell that gets past the await
    leaves the terminal mounted, with the sink for the shell output and
    one listener for typed data and no other; a session that is still
    waiting for [prepare] has installed nothing. *)
Theorem terminal_session_wiring (workspace : Workspace)
    (env : WorkspaceShell) (schedule : Schedule) (w : World)
    (Hfresh : fresh w) :
  let after := (terminal_session workspace env schedule w).2 in
  if resumes (prepare_done w) schedule then wired after else fresh after.
Proof.
  destruct w as [cs fs pd q sink listeners].
  destruct Hfresh as [Hsink Hlisteners]. simpl in Hsink, Hlisteners. subst.
  cbn zeta. rewrite terminal_session_world. cbn [snd prepare_done].
  by destruct (resumes pd schedule).
Qed.

Lemma terminal_session_wiring_witness :
  wired (terminal_session demo_workspace demo_shell demo_schedule
           empty_world).2.
Proof.
  exact (terminal_session_wiring demo_workspace demo_shell demo_schedule
           empty_world (conj eq_refl eq_refl)).
Defined.

(** X11. From the start of a session to a drained pipe.  When a session on
    a fresh terminal and shell has got past the await and the pipe has
    then read the queue empty, the terminal shows, after what it showed
    before: the loading line, then every chunk the shell has emitted, those
    from before the mount first, unchanged and in order.  The shell input
    has received the [cd] line, the command if there is one, and then what
    was typed after the mount, and nothing that was typed before. *)
Theorem terminal_session_end_to_end (workspace : Workspace)
    (env : WorkspaceShell) (schedule : Schedule) (w : World)
    (stimuli : list Stimulus)
    (Hfresh : fresh w)
    (Hresumes : resumes (prepare_done w) schedule = true) :
  let after := (terminal_session workspace env schedule w).2 in
  let later := deliver stimuli after in
  let drained :=
    deliver (replicate (length (output_queue later)) PipeRead) later in
  terminal_written drained
    = terminal_written w ++ ["Loading workspace..." +:+ newline] ++
      output_queue w ++ emitted (seen (prepare_done w) env schedule) ++
      emitted stimuli ∧
  output_queue drained = [] ∧
  input_written later
    = input_written w ++
      ["cd " +:+ dquote +:+ name workspace +:+ dquote +:+ " && clear"
       +:+ newline] ++
      (if truthy (command env)
       then [template (command env) +:+ newline] else []) ++
      typed stimuli.
Proof.
  cbn zeta.
  set (after := (terminal_session workspace env schedule w).2).
  assert (wired after) as Hwired.
  { pose proof (Hw := terminal_session_world workspace env schedule
                        (calls w) (files w) (prepare_done w) (output_queue w)).
    destruct w as [cs fs pd q sink listeners].
    destruct Hfresh as [Hsink Hlisteners]. simpl in Hsink, Hlisteners. subst.
    simpl in Hw, Hresumes. unfold after. rewrite Hw, Hresumes. done. }
  assert (terminal_written after
            = terminal_written w ++ ["Loading workspace..." +:+ newline] ∧
          output_queue after
            = output_queue w ++ emitted (seen (prepare_done w) env schedule) ∧
          input_written after
            = input_written w ++
              ["cd " +:+ dquote +:+ name workspace +:+ dquote +:+ " && clear"
               +:+ newline] ++
              (if truthy (command env)
               then [template (command env) +:+ newline] else []))
    as (Hterm & Hqueue & Hinput).
  { destruct w as [cs fs pd q sink listeners].
    destruct Hfresh as [Hsink Hlisteners]. simpl in Hsink, Hlisteners. subst.
    simpl in Hresumes. unfold after. rewrite terminal_session_world, Hresumes.
    unfold terminal_written, input_written.
    cbn [snd calls output_queue prepare_done]. rewrite !omap_app.
    destruct (truthy (command env)); by simpl. }
  destruct (deliver_wired stimuli after Hwired) as (Hlater & Hout & Hin).
  destruct (drain_wired (deliver stimuli after) Hlater) as [Hq Hdrained].
  split; [|split; [exact Hq|]].
  - rewrite Hdrained, Hout, Hterm, Hqueue. by rewrite <- !app_assoc.
  - rewrite Hin, Hinput. by rewrite <- !app_assoc.
Qed.

Lemma terminal_session_end_to_end_witness :
  let after :=
    (terminal_session demo_workspace demo_shell demo_schedule empty_world).2 in
  let later := deliver [TerminalData "ls"; ShellEmit "a.ts"; PipeRead] after in
  let drained :=
    deliver (replicate (length (output_queue later)) PipeRead) later in
  terminal_written drained
    = ["Loading workspace..." +:+ newline; "$ "; "ready"; "> "; "a.ts"] ∧
  output_queue drained = [] ∧
  input_written later
    = ["cd " +:+ dquote +:+ "demo" +:+ dquote +:+ " && clear" +:+ newline;
       "npm start" +:+ newline; "ls"].
Proof.
  exact (terminal_session_end_to_end demo_workspace demo_shell demo_schedule
           empty_world [TerminalData "ls"; ShellEmit "a.ts"; PipeRead]
           (conj eq_refl eq_refl) eq_refl).
Defined.

End FurtherFacts.
